(** * Deluge event module: a shallow embedding of [deluge/event.py]

    The module declares a process-wide dictionary [known_events], a
    metaclass that files every event class under its class name, the base
    class [DelugeEvent] with its two read-only properties [name] and
    [args], and nineteen event classes.

    The source is Python 2 code ([__metaclass__] in the class body, the
    two-argument [super]); it is modelled with Python 2 class-creation
    semantics: the metaclass of [DelugeEvent] runs for [DelugeEvent]
    itself and for every class that inherits from it. *)

From stdpp Require Import gmap strings list fin_maps.

Local Open Scope string_scope.
Local Open Scope list_scope.
Local Open Scope nat_scope.

(** ** Python values and exceptions *)

(** The values an event can carry.  The module never inspects them; the
    constructors only cover what the docstrings mention (strings, bools,
    ints, an untyped config value) plus the list that [_args] holds. *)
#[warnings="-register-all"]
Inductive PyVal : Type :=
| PyNone
| PyBool (b : bool)
| PyInt (z : Z)
| PyStr (s : string)
| PyList (items : list PyVal).

(** The built-in exceptions that the modelled operations can raise. *)
Inductive PyExc : Type :=
| TypeError
| KeyError (key : string)
| NameError (ident : string)
| AttributeError (attr : string).

(** Outcome of an operation that may raise. *)
Definition result (A : Type) : Type := PyExc + A.

Definition ret {A : Type} (a : A) : result A := inr a.
Definition raise {A : Type} (e : PyExc) : result A := inl e.

Definition bind {A B : Type} (r : result A) (k : A → result B) : result B :=
  match r with
  | inl e => inl e
  | inr a => k a
  end.

Notation "x ←? r ; k" := (bind r (λ x, k))
  (at level 20, r at level 100, k at level 200, only parsing, right associativity).

Fixpoint mapM {A B : Type} (f : A → result B) (l : list A) : result (list B) :=
  match l with
  | [] => ret []
  | a :: l' => b ←? f a; bs ←? mapM f l'; ret (b :: bs)
  end.

(** ** Classes *)

(** The types that the [:type name: ...] lines of the docstrings name. *)
Inductive PyType : Type := TyString | TyBool | TyInt.

(** Whether a value is of a documented type ([bool] is a subclass of
    [int] in Python). *)
Definition has_type (v : PyVal) (t : PyType) : bool :=
  match v, t with
  | PyStr _, TyString => true
  | PyBool _, TyBool => true
  | PyInt _, TyInt => true
  | PyBool _, TyInt => true
  | _, _ => false
  end.

(** An [__init__] of the module: its parameters after [self], the type
    its docstring gives for each of them (if any), and the names listed,
    in order, in the body [self._args = [n1, ..., nk]]. *)
Record InitDef : Type := mkInit {
  init_params : list string;
  init_doc_types : list (option PyType);
  init_body_args : list string
}.

(** A class: [object], or a class statement with its name, its single
    base and, when the body defines one, its [__init__]. *)
Inductive PyClass : Type :=
| PyObject
| ClassDef (name : string) (base : PyClass) (init : option InitDef).

(** [cls.__name__] *)
Definition class_name (c : PyClass) : string :=
  match c with
  | PyObject => "object"
  | ClassDef name _ _ => name
  end.

(** Method resolution of [__init__] along the single-inheritance chain;
    [None] stands for [object.__init__]. *)
Fixpoint resolve_init (c : PyClass) : option InitDef :=
  match c with
  | PyObject => None
  | ClassDef _ base (Some i) => Some i
  | ClassDef _ base None => resolve_init base
  end.

(** ** The registry and the metaclass *)

(** [DelugeEventMetaClass.__init__(cls, name, bases, dct)]: after the
    call to [type.__init__], which has no effect on the registry, the
    class is stored under [name] unless [name] is ["DelugeEvent"]. *)
Definition DelugeEventMetaClass_init (cls : PyClass) (name : string)
    (known : gmap string PyClass) : gmap string PyClass :=
  if decide (name ≠ "DelugeEvent") then <[name := cls]> known else known.

(** Executing a class statement whose metaclass is [DelugeEventMetaClass]:
    the metaclass is called with the name written in the statement. *)
Definition class_statement (known : gmap string PyClass) (cls : PyClass)
  : gmap string PyClass :=
  DelugeEventMetaClass_init cls (class_name cls) known.

(** ** The classes of the module, in source order *)

(** The [__init__] definitions as written: parameter list, documented
    types, then the list literal assigned to [self._args]. *)
Definition DelugeEvent : PyClass := ClassDef "DelugeEvent" PyObject None.

Definition TorrentAddedEvent : PyClass :=
  ClassDef "TorrentAddedEvent" DelugeEvent
    (Some (mkInit ["torrent_id"; "from_state"]
                  [Some TyString; Some TyBool]
                  ["torrent_id"; "from_state"])).

Definition TorrentRemovedEvent : PyClass :=
  ClassDef "TorrentRemovedEvent" DelugeEvent
    (Some (mkInit ["torrent_id"]
                  [Some TyString]
                  ["torrent_id"])).

Definition PreTorrentRemovedEvent : PyClass :=
  ClassDef "PreTorrentRemovedEvent" DelugeEvent
    (Some (mkInit ["torrent_id"]
                  [Some TyString]
                  ["torrent_id"])).

Definition TorrentStateChangedEvent : PyClass :=
  ClassDef "TorrentStateChangedEvent" DelugeEvent
    (Some (mkInit ["torrent_id"; "state"]
                  [Some TyString; Some TyString]
                  ["torrent_id"; "state"])).

Definition TorrentQueueChangedEvent : PyClass :=
  ClassDef "TorrentQueueChangedEvent" DelugeEvent None.

Definition TorrentFolderRenamedEvent : PyClass :=
  ClassDef "TorrentFolderRenamedEvent" DelugeEvent
    (Some (mkInit ["torrent_id"; "old"; "new"]
                  [Some TyString; Some TyString; Some TyString]
                  ["torrent_id"; "old"; "new"])).

Definition TorrentFileRenamedEvent : PyClass :=
  ClassDef "TorrentFileRenamedEvent" DelugeEvent
    (Some (mkInit ["torrent_id"; "index"; "name"]
                  [Some TyString; Some TyInt; Some TyString]
                  ["torrent_id"; "index"; "name"])).

Definition TorrentFinishedEvent : PyClass :=
  ClassDef "TorrentFinishedEvent" DelugeEvent
    (Some (mkInit ["torrent_id"]
                  [Some TyString]
                  ["torrent_id"])).

Definition TorrentResumedEvent : PyClass :=
  ClassDef "TorrentResumedEvent" DelugeEvent
    (Some (mkInit ["torrent_id"]
                  [Some TyString]
                  ["torrent_id"])).

Definition TorrentFileCompletedEvent : PyClass :=
  ClassDef "TorrentFileCompletedEvent" DelugeEvent
    (Some (mkInit ["torrent_id"; "index"]
                  [Some TyString; Some TyInt]
                  ["torrent_id"; "index"])).

Definition TorrentStorageMovedEvent : PyClass :=
  ClassDef "TorrentStorageMovedEvent" DelugeEvent
    (Some (mkInit ["torrent_id"; "path"]
                  [Some TyString; Some TyString]
                  ["torrent_id"; "path"])).

Definition CreateTorrentProgressEvent : PyClass :=
  ClassDef "CreateTorrentProgressEvent" DelugeEvent
    (Some (mkInit ["piece_count"; "num_pieces"]
                  [None; None]
                  ["piece_count"; "num_pieces"])).

Definition NewVersionAvailableEvent : PyClass :=
  ClassDef "NewVersionAvailableEvent" DelugeEvent
    (Some (mkInit ["new_release"]
                  [Some TyString]
                  ["new_release"])).

Definition SessionStartedEvent : PyClass :=
  ClassDef "SessionStartedEvent" DelugeEvent None.

Definition SessionPausedEvent : PyClass :=
  ClassDef "SessionPausedEvent" DelugeEvent None.

Definition SessionResumedEvent : PyClass :=
  ClassDef "SessionResumedEvent" DelugeEvent None.

Definition ConfigValueChangedEvent : PyClass :=
  ClassDef "ConfigValueChangedEvent" DelugeEvent
    (Some (mkInit ["key"; "value"]
                  [Some TyString; None]
                  ["key"; "value"])).

Definition PluginEnabledEvent : PyClass :=
  ClassDef "PluginEnabledEvent" DelugeEvent
    (Some (mkInit ["plugin_name"]
                  [None]
                  ["plugin_name"])).

Definition PluginDisabledEvent : PyClass :=
  ClassDef "PluginDisabledEvent" DelugeEvent
    (Some (mkInit ["plugin_name"]
                  [None]
                  ["plugin_name"])).

(** The nineteen classes that derive from [DelugeEvent]. *)
Definition event_classes : list PyClass :=
  [ TorrentAddedEvent; TorrentRemovedEvent; PreTorrentRemovedEvent;
    TorrentStateChangedEvent; TorrentQueueChangedEvent;
    TorrentFolderRenamedEvent; TorrentFileRenamedEvent;
    TorrentFinishedEvent; TorrentResumedEvent; TorrentFileCompletedEvent;
    TorrentStorageMovedEvent; CreateTorrentProgressEvent;
    NewVersionAvailableEvent; SessionStartedEvent; SessionPausedEvent;
    SessionResumedEvent; ConfigValueChangedEvent; PluginEnabledEvent;
    PluginDisabledEvent ].

(** Every class statement of the module, top to bottom. *)
Definition module_classes : list PyClass := DelugeEvent :: event_classes.

(** The registry after a sequence of class statements, run in order
    from a given registry. *)
Definition run_statements (known : gmap string PyClass) (stmts : list PyClass)
  : gmap string PyClass :=
  foldl class_statement known stmts.

(** [known_events] once the module body has run: it starts as [{}] and
    every class statement goes through the metaclass. *)
Definition known_events : gmap string PyClass :=
  run_statements ∅ module_classes.

(** ** Instances *)

(** An instance: its class and its attribute dictionary. *)
Record Instance : Type := mkInstance {
  inst_class : PyClass;
  inst_dict : gmap string PyVal
}.

(** Reading an attribute that no class of the module defines
    (here [_args]): the instance dictionary decides. *)
Definition getattr (self : Instance) (attr : string) : result PyVal :=
  match inst_dict self !! attr with
  | Some v => ret v
  | None => raise (AttributeError attr)
  end.

Definition hasattr (self : Instance) (attr : string) : bool :=
  match getattr self attr with
  | inr _ => true
  | inl _ => false
  end.

(** [DelugeEvent._get_name] *)
Definition _get_name (self : Instance) : string :=
  class_name (inst_class self).

(** [DelugeEvent._get_args] *)
Definition _get_args (self : Instance) : result PyVal :=
  if negb (hasattr self "_args") then ret (PyList [])
  else getattr self "_args".

(** ** Calling a class *)

(** Binding of call arguments to the parameters of a function without
    defaults: positional arguments fill the leading parameters, keyword
    arguments the rest; too many positionals, a keyword that names an
    already filled or unknown parameter, or a parameter left unfilled
    raise [TypeError]. *)
Definition bind_args (params : list string) (pos : list PyVal)
    (kw : gmap string PyVal) : result (gmap string PyVal) :=
  if decide (length params < length pos) then raise TypeError
  else
    let filled := take (length pos) params in
    let rest := drop (length pos) params in
    if negb (forallb (λ k, bool_decide (kw !! k = None)) filled)
    then raise TypeError
    else if negb (bool_decide (dom kw ⊆ list_to_set params))
    then raise TypeError
    else if negb (forallb (λ k, bool_decide (is_Some (kw !! k))) rest)
    then raise TypeError
    else ret (list_to_map (zip filled pos) ∪ kw).

(** Evaluating a name in the local scope of a running [__init__]. *)
Definition eval_name (locals : gmap string PyVal) (x : string) : result PyVal :=
  match locals !! x with
  | Some v => ret v
  | None => raise (NameError x)
  end.

(** Running [__init__]: bind the arguments, evaluate the list literal,
    store it in [self._args]. *)
Definition run_init (i : InitDef) (self : Instance) (pos : list PyVal)
    (kw : gmap string PyVal) : result Instance :=
  locals ←? bind_args (init_params i) pos kw;
  items ←? mapM (eval_name locals) (init_body_args i);
  ret (mkInstance (inst_class self)
         (<["_args" := PyList items]> (inst_dict self))).

(** Calling [cls] with positional arguments [pos] and keyword
    arguments [kw]: a fresh instance with an empty dictionary, then
    the resolved [__init__].  With no [__init__] along the chain,
    [object] rejects any argument with [TypeError]. *)
Definition construct (cls : PyClass) (pos : list PyVal)
    (kw : gmap string PyVal) : result Instance :=
  let self := mkInstance cls ∅ in
  match resolve_init cls with
  | Some i => run_init i self pos kw
  | None =>
      if decide (pos = [] ∧ kw = ∅) then ret self else raise TypeError
  end.

(** Subscription [known[name]] on the registry dictionary. *)
Definition lookup_event (known : gmap string PyClass) (name : string)
  : result PyClass :=
  match known !! name with
  | Some c => ret c
  | None => raise (KeyError name)
  end.

(** A later class statement that reuses a name already in the registry,
    as any module that imports [DelugeEvent] can contain:
    [class TorrentAddedEvent(DelugeEvent): pass]. *)
Definition TorrentAddedEvent_redefined : PyClass :=
  ClassDef "TorrentAddedEvent" DelugeEvent None.

(** The parameters of the [__init__] that a call of [cls] runs, and
    their number. *)
Definition parameters (cls : PyClass) : list string :=
  match resolve_init cls with
  | Some i => init_params i
  | None => []
  end.

Definition arity (cls : PyClass) : nat := length (parameters cls).

(** The shape shared by every [__init__] of the module: parameter names
    are pairwise distinct (Python rejects a duplicate at compile time)
    and the list stored in [_args] names the parameters, in order. *)
Definition init_stores_params (i : InitDef) : Prop :=
  NoDup (init_params i) ∧ init_body_args i = init_params i.

Definition class_stores_params (cls : PyClass) : Prop :=
  match resolve_init cls with
  | Some i => init_stores_params i
  | None => True
  end.


(** The registry invariant: every class sits under its own [__name__],
    and ["DelugeEvent"] is not a key. *)
Definition keyed_by_name (known : gmap string PyClass) : Prop :=
  ∀ k c, known !! k = Some c → class_name c = k ∧ k ≠ "DelugeEvent".

(** The classes of a sequence of class statements that bear a given
    name, in order of definition. *)
Definition named (name : string) (stmts : list PyClass) : list PyClass :=
  filter (λ c, class_name c = name) stmts.

(** ** List objects and their identity

    [_get_args] hands out the list object stored in [_args] itself, and
    a new list when there is none.  To tell the two apart the lists live
    in a store, and an attribute holds the location of its list. *)

Module Store.

(** The list objects allocated so far, and the next free location. *)
Record Heap : Type := mkHeap {
  heap_lists : gmap nat (list PyVal);
  heap_next : nat
}.

(** Every allocated location is below the next free one. *)
Definition heap_ok (h : Heap) : Prop :=
  ∀ l, is_Some (heap_lists h !! l) → l < heap_next h.

(** A list display [[v1, ..., vn]] creates a new list object. *)
Definition new_list (items : list PyVal) (h : Heap) : nat * Heap :=
  (heap_next h,
   mkHeap (<[heap_next h := items]> (heap_lists h)) (S (heap_next h))).

(** [l.append(x)] on the list object at [l]. *)
Definition list_append (l : nat) (x : PyVal) (h : Heap) : Heap :=
  mkHeap (alter (λ items, items ++ [x]) l (heap_lists h)) (heap_next h).

(** An instance whose attributes hold list objects. *)
Record Obj : Type := mkObj {
  obj_class : PyClass;
  obj_dict : gmap string nat
}.

(** [DelugeEvent._get_args]: the list object of [_args] when the
    attribute is there, the value of a fresh [[]] otherwise. *)
Definition _get_args (self : Obj) (h : Heap) : nat * Heap :=
  match obj_dict self !! "_args" with
  | None => new_list [] h
  | Some l => (l, h)
  end.

(** Calling a class: as [construct], with the list display of the
    [__init__] body allocating the list that [_args] refers to. *)
Definition construct (cls : PyClass) (pos : list PyVal)
    (kw : gmap string PyVal) (h : Heap) : result (Obj * Heap) :=
  match resolve_init cls with
  | Some i =>
      locals ←? bind_args (init_params i) pos kw;
      items ←? mapM (eval_name locals) (init_body_args i);
      ret (mkObj cls {[ "_args" := (new_list items h).1 ]},
           (new_list items h).2)
  | None =>
      if decide (pos = [] ∧ kw = ∅) then ret (mkObj cls ∅, h)
      else raise TypeError
  end.

(** The instance as a value: every attribute replaced by the current
    contents of its list. *)
Definition instance_of (o : Obj) (h : Heap) : Instance :=
  mkInstance (obj_class o)
    (omap (λ l, PyList <$> heap_lists h !! l) (obj_dict o)).

End Store.

(** * Properties *)

(** ** The result monad *)

Lemma bind_ret_inv {A B : Type} (r : result A) (k : A → result B) (b : B) :
  bind r k = ret b → ∃ a, r = ret a ∧ k a = ret b.
Proof. destruct r as [e|a]; simpl; [discriminate | eauto]. Qed.

Section result_monad.
Context {A B : Type}.
Implicit Types (f : A → result B) (l : list A).

Lemma mapM_Forall2 f l (bs : list B) :
  Forall2 (λ a b, f a = ret b) l bs → mapM f l = ret bs.
Proof.
  induction 1 as [|a b l bs Hab _ IH]; simpl; [done|].
  by rewrite Hab; simpl; rewrite IH.
Qed.

Lemma mapM_ret_inv f l (bs : list B) :
  mapM f l = ret bs → Forall2 (λ a b, f a = ret b) l bs.
Proof.
  revert bs; induction l as [|a l IH]; simpl; intros bs Hbs.
  - injection Hbs as <-. constructor.
  - apply bind_ret_inv in Hbs as (b & Hb & Hbs).
    destruct (mapM f l) as [e|bs'] eqn:Hl; simpl in Hbs; [discriminate|].
    injection Hbs as <-. constructor; auto.
Qed.
End result_monad.

(** ** The metaclass and the registry *)

Section registry.
Implicit Types (known : gmap string PyClass) (cls c : PyClass).
Implicit Types (stmts pre post : list PyClass) (name k : string).

Lemma metaclass_init_guarded cls known :
  DelugeEventMetaClass_init cls "DelugeEvent" known = known.
Proof. unfold DelugeEventMetaClass_init. by case_decide. Qed.

Lemma metaclass_init_insert cls name known :
  name ≠ "DelugeEvent" →
  DelugeEventMetaClass_init cls name known = <[name := cls]> known.
Proof. intros ?. unfold DelugeEventMetaClass_init. by case_decide. Qed.

Lemma metaclass_init_lookup_ne cls name known k :
  k ≠ name → DelugeEventMetaClass_init cls name known !! k = known !! k.
Proof.
  intros ?. unfold DelugeEventMetaClass_init.
  case_decide; [by rewrite lookup_insert_ne|done].
Qed.

Lemma metaclass_init_dom cls name known :
  dom known ⊆ dom (DelugeEventMetaClass_init cls name known).
Proof.
  unfold DelugeEventMetaClass_init. case_decide; [|done].
  rewrite dom_insert_L. set_solver.
Qed.

Lemma class_statement_dom known cls :
  dom known ⊆ dom (class_statement known cls).
Proof. apply metaclass_init_dom. Qed.

Lemma class_statement_lookup_ne known cls k :
  k ≠ class_name cls → class_statement known cls !! k = known !! k.
Proof. apply metaclass_init_lookup_ne. Qed.

Lemma class_statement_lookup_eq known cls :
  class_name cls ≠ "DelugeEvent" →
  class_statement known cls !! class_name cls = Some cls.
Proof.
  intros ?. unfold class_statement.
  rewrite metaclass_init_insert by done. apply lookup_insert_eq.
Qed.

Lemma class_statement_base known cls :
  known !! "DelugeEvent" = None →
  class_statement known cls !! "DelugeEvent" = None.
Proof.
  intros Hk. unfold class_statement, DelugeEventMetaClass_init.
  case_decide; [by rewrite lookup_insert_ne|done].
Qed.

Lemma run_statements_app known pre post :
  run_statements known (pre ++ post)
  = run_statements (run_statements known pre) post.
Proof. apply foldl_app. Qed.

Lemma run_statements_snoc known pre c :
  run_statements known (pre ++ [c])
  = class_statement (run_statements known pre) c.
Proof. by rewrite run_statements_app. Qed.

Lemma run_statements_dom known stmts :
  dom known ⊆ dom (run_statements known stmts).
Proof.
  revert known; induction stmts as [|c stmts IH]; intros known; [done|].
  simpl. etrans; [apply (class_statement_dom known c)|apply IH].
Qed.

Lemma run_statements_unnamed known stmts k :
  k ∉ class_name <$> stmts →
  run_statements known stmts !! k = known !! k.
Proof.
  revert known; induction stmts as [|c stmts IH]; intros known Hk; [done|].
  rewrite fmap_cons, not_elem_of_cons in Hk. destruct Hk as [Hc Hk].
  simpl. rewrite IH by done. by apply class_statement_lookup_ne.
Qed.

Lemma run_statements_base known stmts :
  known !! "DelugeEvent" = None →
  run_statements known stmts !! "DelugeEvent" = None.
Proof.
  revert known; induction stmts as [|c stmts IH]; intros known Hk; [done|].
  simpl. by apply IH, class_statement_base.
Qed.

(** The entry under a name is the last class defined with that name. *)
Lemma run_statements_last known pre c post :
  class_name c ≠ "DelugeEvent" →
  class_name c ∉ class_name <$> post →
  run_statements known (pre ++ c :: post) !! class_name c = Some c.
Proof.
  intros Hb Hpost. rewrite run_statements_app. simpl.
  rewrite run_statements_unnamed by done.
  by apply class_statement_lookup_eq.
Qed.

Lemma run_statements_Some known stmts k c :
  known = ∅ →
  run_statements known stmts !! k = Some c →
  c ∈ stmts ∧ class_name c = k ∧ k ≠ "DelugeEvent".
Proof.
  intros ->. induction stmts as [|d stmts IH] using rev_ind.
  - simpl. by rewrite lookup_empty.
  - rewrite run_statements_snoc. intros Hk.
    destruct (decide (k = class_name d)) as [->|Hne].
    + unfold class_statement, DelugeEventMetaClass_init in Hk.
      case_decide as Hd.
      * rewrite lookup_insert_eq in Hk. injection Hk as <-.
        rewrite elem_of_app, list_elem_of_singleton. auto.
      * rewrite Hd in Hk.
        by rewrite run_statements_base in Hk.
    + rewrite class_statement_lookup_ne in Hk by done.
      destruct (IH Hk) as (? & ? & ?).
      rewrite elem_of_app. auto.
Qed.
End registry.

(** ** Facts about the module's class list, by evaluation *)

Lemma module_class_names_NoDup : NoDup (class_name <$> module_classes).
Proof. by apply (bool_decide_unpack _); vm_compute. Qed.

Lemma event_class_names_NoDup : NoDup (class_name <$> event_classes).
Proof. by apply (bool_decide_unpack _); vm_compute. Qed.

Lemma event_classes_not_base :
  Forall (λ c, class_name c ≠ "DelugeEvent") event_classes.
Proof. repeat constructor; discriminate. Qed.

(** ** Argument binding *)

Section binding.
Implicit Types (params body : list string) (pos items : list PyVal).
Implicit Types (kw locals : gmap string PyVal).

(** What a successful binding says about the call. *)
Lemma bind_args_ret_inv params pos kw locals :
  bind_args params pos kw = ret locals →
  length pos ≤ length params
  ∧ Forall (λ k, kw !! k = None) (take (length pos) params)
  ∧ dom kw ⊆ list_to_set params
  ∧ Forall (λ k, is_Some (kw !! k)) (drop (length pos) params)
  ∧ locals = list_to_map (zip (take (length pos) params) pos) ∪ kw.
Proof.
  unfold bind_args. case_decide as Hlen; [discriminate|].
  destruct (forallb _ (take _ _)) eqn:Hfilled; simpl; [|discriminate].
  case_bool_decide as Hdom; simpl; [|discriminate].
  destruct (forallb _ (drop _ _)) eqn:Hrest; simpl; [|discriminate].
  intros [= <-]. split_and!; [lia| |done| |done].
  - apply Forall_forall. intros k Hk%list_elem_of_In.
    rewrite forallb_forall in Hfilled.
    by apply Hfilled, bool_decide_eq_true in Hk.
  - apply Forall_forall. intros k Hk%list_elem_of_In.
    rewrite forallb_forall in Hrest.
    by apply Hrest, bool_decide_eq_true in Hk.
Qed.

(** Binding never raises anything but [TypeError]. *)
Lemma bind_args_raise_inv params pos kw e :
  bind_args params pos kw = raise e → e = TypeError.
Proof.
  unfold bind_args. case_decide; [by intros [= <-]|].
  repeat match goal with
         | |- context [if negb ?b then _ else _] =>
             destruct b; simpl; try by intros [= <-]
         end.
Qed.

(** Positional arguments alone, one per parameter, always bind. *)
Lemma bind_args_positional params pos :
  length pos = length params →
  bind_args params pos ∅ = ret (list_to_map (zip params pos)).
Proof.
  intros Hlen. unfold bind_args. case_decide; [lia|].
  rewrite Hlen, take_ge, drop_all by lia. simpl.
  replace (forallb _ params) with true; simpl.
  - rewrite bool_decide_eq_true_2 by (rewrite dom_empty_L; set_solver).
    simpl. by rewrite (right_id_L ∅ (∪)).
  - symmetry. apply forallb_forall. intros k _.
    by apply bool_decide_eq_true.
Qed.

Lemma lookup_zip_params params pos i k v :
  NoDup params → length pos ≤ length params →
  params !! i = Some k → pos !! i = Some v →
  (list_to_map (zip (take (length pos) params) pos) : gmap string PyVal) !! k
  = Some v.
Proof.
  intros Hnd Hlen Hk Hv.
  apply elem_of_list_to_map_1.
  - rewrite fst_zip by (rewrite length_take; lia).
    by eapply sublist_NoDup; [|apply sublist_take].
  - apply list_elem_of_lookup. exists i.
    rewrite lookup_zip_with, lookup_take_lt by (by eapply lookup_lt_Some).
    by rewrite Hk; simpl; rewrite Hv.
Qed.

(** The values that the keyword arguments give to the parameters
    not filled positionally. *)
Lemma keyword_values kw (ks : list string) :
  Forall (λ k, is_Some (kw !! k)) ks →
  ∃ vs, Forall2 (λ k v, kw !! k = Some v) ks vs.
Proof.
  induction 1 as [|k ks [v Hv] _ [vs IH]]; [by exists []|].
  exists (v :: vs). by constructor.
Qed.

(** After a successful binding, evaluating the parameter names in
    order gives the positional arguments followed by the keyword
    arguments in parameter order. *)
Lemma eval_params_after_bind params pos kw locals :
  NoDup params →
  bind_args params pos kw = ret locals →
  ∃ kwvals,
    Forall2 (λ k v, kw !! k = Some v) (drop (length pos) params) kwvals
    ∧ mapM (eval_name locals) params = ret (pos ++ kwvals).
Proof.
  intros Hnd (Hlen & Hfilled & Hdom & Hrest & ->)%bind_args_ret_inv.
  destruct (keyword_values _ _ Hrest) as [kwvals Hkw].
  exists kwvals. split; [done|].
  apply mapM_Forall2.
  rewrite <- (take_drop (length pos) params) at 1.
  apply Forall2_app.
  - apply Forall2_same_length_lookup_2; [rewrite length_take; lia|].
    intros i k v Hk Hv. unfold eval_name.
    apply lookup_take_Some in Hk as [Hk _].
    erewrite lookup_union_Some_l; [done|].
    by eapply lookup_zip_params.
  - apply Forall2_same_length_lookup_2; [by eapply Forall2_length|].
    intros i k v Hk Hv. unfold eval_name.
    assert (k ∈ drop (length pos) params) as Hin
      by (by eapply list_elem_of_lookup_2).
    rewrite lookup_union_r, (Forall2_lookup_lr _ _ _ _ _ _ Hkw Hk Hv);
      [done|].
    apply not_elem_of_list_to_map_1.
    rewrite fst_zip by (rewrite length_take; lia).
    rewrite <- (take_drop (length pos) params) in Hnd.
    apply NoDup_app in Hnd as (_ & Hdisj & _).
    intros Hin'. by apply (Hdisj k).
Qed.

(** A successful binding accounts for every parameter exactly once. *)
Lemma bind_args_count params pos kw locals :
  NoDup params →
  bind_args params pos kw = ret locals →
  length pos + size kw = length params.
Proof.
  intros Hnd (Hlen & Hfilled & Hdom & Hrest & _)%bind_args_ret_inv.
  assert (dom kw = list_to_set (drop (length pos) params)) as Heq.
  { apply set_eq. intros k. rewrite elem_of_dom, elem_of_list_to_set.
    split.
    - intros Hk. assert (k ∈ params) as Hin.
      { apply (elem_of_list_to_set (C := gset string)), Hdom.
        by apply elem_of_dom. }
      rewrite <- (take_drop (length pos) params), elem_of_app in Hin.
      destruct Hin as [Hin|Hin]; [|done].
      rewrite Forall_forall in Hfilled.
      rewrite (Hfilled _ Hin) in Hk. by destruct Hk.
    - rewrite Forall_forall in Hrest. apply Hrest. }
  rewrite <- size_dom, Heq, size_list_to_set by (by eapply sublist_NoDup; [|apply sublist_drop]).
  rewrite length_drop. lia.
Qed.
End binding.

(** ** Instances and construction *)

Section construction.
Implicit Types (cls : PyClass) (pos : list PyVal) (e : Instance).
Implicit Types (kw : gmap string PyVal).

Lemma get_args_stored e v :
  inst_dict e !! "_args" = Some v → _get_args e = ret v.
Proof. intros H. unfold _get_args, hasattr, getattr. by rewrite H. Qed.

Lemma get_args_default e :
  inst_dict e !! "_args" = None → _get_args e = ret (PyList []).
Proof. intros H. unfold _get_args, hasattr, getattr. by rewrite H. Qed.

Lemma event_classes_store_params :
  Forall class_stores_params event_classes.
Proof.
  repeat constructor; simpl; try done;
    by apply (bool_decide_unpack _); vm_compute.
Qed.

Lemma base_class_stores_params : class_stores_params DelugeEvent.
Proof. exact I. Qed.

(** A call that returns: the instance is of the called class, every
    parameter received one argument, and [args] reads back the
    positional arguments followed by the keyword arguments in
    parameter order. *)
Lemma construct_ret_inv cls pos kw e :
  class_stores_params cls →
  construct cls pos kw = ret e →
  inst_class e = cls
  ∧ length pos + size kw = arity cls
  ∧ ∃ kwvals,
      Forall2 (λ k v, kw !! k = Some v)
              (drop (length pos) (parameters cls)) kwvals
      ∧ _get_args e = ret (PyList (pos ++ kwvals)).
Proof.
  unfold class_stores_params, construct, arity, parameters.
  destruct (resolve_init cls) as [i|].
  - intros [Hnd Hbody] Hrun. unfold run_init in Hrun.
    apply bind_ret_inv in Hrun as (locals & Hbind & Hrun).
    apply bind_ret_inv in Hrun as (items & Hitems & [= <-]).
    destruct (eval_params_after_bind _ _ _ _ Hnd Hbind)
      as (kwvals & Hkw & Heval).
    rewrite Hbody, Heval in Hitems. injection Hitems as <-.
    split_and!; [done|by eapply bind_args_count|].
    exists kwvals. split; [done|].
    apply get_args_stored. simpl. by rewrite lookup_insert_eq.
  - intros _. case_decide as Hno; [|discriminate].
    destruct Hno as [-> ->]. intros [= <-].
    split_and!; [done|by rewrite map_size_empty|].
    exists []. split; [constructor|].
    by apply get_args_default.
Qed.

(** A call that raises, raises [TypeError]. *)
Lemma construct_raise_inv cls pos kw ex :
  class_stores_params cls →
  construct cls pos kw = raise ex → ex = TypeError.
Proof.
  unfold class_stores_params, construct.
  destruct (resolve_init cls) as [i|].
  - intros [Hnd Hbody]. unfold run_init.
    destruct (bind_args (init_params i) pos kw) as [ex'|locals] eqn:Hbind.
    + simpl. intros [= <-]. by eapply bind_args_raise_inv.
    + destruct (eval_params_after_bind _ _ _ _ Hnd Hbind)
        as (kwvals & _ & Heval).
      simpl. rewrite Hbody, Heval. discriminate.
  - intros _. case_decide; [discriminate|]. by intros [= <-].
Qed.

(** One positional argument per parameter, whatever the values: the
    call returns an instance whose [args] are those values. *)
Lemma construct_positional cls pos :
  class_stores_params cls →
  length pos = arity cls →
  ∃ e, construct cls pos ∅ = ret e
       ∧ inst_class e = cls
       ∧ _get_args e = ret (PyList pos).
Proof.
  intros Hwf Hlen.
  destruct (construct cls pos ∅) as [ex|e] eqn:Hc.
  - exfalso. revert Hc Hwf Hlen.
    unfold class_stores_params, construct, arity, parameters.
    destruct (resolve_init cls) as [i|].
    + intros Hc [Hnd Hbody] Hlen. unfold run_init in Hc.
      pose proof (bind_args_positional _ _ Hlen) as Hbind.
      destruct (eval_params_after_bind _ _ _ _ Hnd Hbind)
        as (kwvals & _ & Heval).
      rewrite Hbind in Hc. simpl in Hc.
      rewrite Hbody, Heval in Hc. discriminate.
    + intros Hc _ Hlen. apply nil_length_inv in Hlen as ->.
      by case_decide as Hno; [|destruct Hno].
  - exists e. destruct (construct_ret_inv _ _ _ _ Hwf Hc)
      as (Hcls & _ & kwvals & Hkw & Hargs).
    split_and!; [done..|].
    unfold arity in Hlen. rewrite Hlen, drop_all in Hkw.
    apply Forall2_nil_inv_l in Hkw as ->.
    by rewrite app_nil_r in Hargs.
Qed.
End construction.

(** ** The registry of the module *)

Section module_registry.
Implicit Types (c cls : PyClass) (name : string).

Lemma event_class_not_base c :
  c ∈ event_classes → class_name c ≠ "DelugeEvent".
Proof. apply (proj1 (Forall_forall _ _) event_classes_not_base). Qed.

Lemma run_statements_named (known : gmap string PyClass) stmts name :
  name ∈ class_name <$> stmts → name ≠ "DelugeEvent" →
  is_Some (run_statements known stmts !! name).
Proof.
  intros Hin Hb. induction stmts as [|d stmts IH] using rev_ind.
  - by apply elem_of_nil in Hin.
  - rewrite run_statements_snoc.
    destruct (decide (name = class_name d)) as [->|Hne].
    + rewrite class_statement_lookup_eq by done. eauto.
    + rewrite class_statement_lookup_ne by done. apply IH.
      rewrite fmap_app, elem_of_app in Hin.
      destruct Hin as [Hin|Hin]; [done|].
      simpl in Hin. by apply list_elem_of_singleton in Hin.
Qed.

(** With pairwise distinct names, a class statement finds its name
    free, and its entry survives every later statement. *)
Lemma run_statements_distinct pre c post :
  NoDup (class_name <$> pre ++ c :: post) →
  run_statements ∅ pre !! class_name c = None
  ∧ (class_name c ≠ "DelugeEvent" →
     ∀ mid rest, post = mid ++ rest →
       run_statements ∅ (pre ++ c :: mid) !! class_name c = Some c).
Proof.
  rewrite fmap_app, fmap_cons.
  intros (_ & Hpre & (Hpost & _)%NoDup_cons)%NoDup_app. split.
  - rewrite run_statements_unnamed; [apply lookup_empty|].
    intros Hin. apply (Hpre _ Hin). left.
  - intros Hb mid rest ->. apply run_statements_last; [done|].
    rewrite fmap_app, elem_of_app in Hpost. tauto.
Qed.

Lemma known_events_lookup c :
  c ∈ event_classes → known_events !! class_name c = Some c.
Proof.
  intros Hc. pose proof (event_class_not_base _ Hc) as Hb.
  apply list_elem_of_split in Hc as (l1 & l2 & Hsplit).
  pose proof module_class_names_NoDup as Hnd.
  unfold known_events, module_classes in *. rewrite Hsplit in *.
  destruct (run_statements_distinct (DelugeEvent :: l1) c l2 Hnd)
    as [_ Hlast].
  specialize (Hlast Hb l2 [] (eq_sym (app_nil_r l2))). done.
Qed.

Lemma known_events_lookup_inv name c :
  known_events !! name = Some c →
  c ∈ event_classes ∧ class_name c = name.
Proof.
  intros (Hin & Hname & Hb)%run_statements_Some; [|done].
  split; [|done]. unfold module_classes in Hin.
  apply elem_of_cons in Hin as [->|Hin]; [|done].
  by subst name.
Qed.
End module_registry.

(** Membership in a list written out in full. *)
Ltac in_list :=
  repeat first [ apply list_elem_of_here | apply list_elem_of_further ].

(** * The claims *)

(** C8 — once the module body has run, [known_events] holds exactly the
    nineteen classes derived from [DelugeEvent], each under its own class
    name, and ["DelugeEvent"] is not a key: not in the final registry,
    and not after any sequence of class statements either. *)
Theorem C8_known_events_contents :
  length event_classes = 19
  ∧ size known_events = 19
  ∧ known_events = list_to_map ((λ c, (class_name c, c)) <$> event_classes)
  ∧ (∀ name c,
       known_events !! name = Some c ↔ c ∈ event_classes ∧ class_name c = name)
  ∧ known_events !! "DelugeEvent" = None
  ∧ (∀ stmts, run_statements ∅ stmts !! "DelugeEvent" = None).
Proof.
  split_and!.
  - reflexivity.
  - by vm_compute.
  - apply map_eq. intros name.
    destruct (known_events !! name) as [c|] eqn:Hk; symmetry.
    + apply known_events_lookup_inv in Hk as [Hin <-].
      apply elem_of_list_to_map_1.
      * rewrite <- list_fmap_compose. apply event_class_names_NoDup.
      * apply list_elem_of_fmap. eauto.
    + apply not_elem_of_list_to_map_1. rewrite <- list_fmap_compose.
      intros (c & Heq & Hin)%list_elem_of_fmap. simpl in Heq. subst name.
      by rewrite (known_events_lookup c Hin) in Hk.
  - intros name c. split.
    + apply known_events_lookup_inv.
    + intros [Hin <-]. by apply known_events_lookup.
  - by apply run_statements_base.
  - intros stmts. by apply run_statements_base.
Qed.

Lemma C8_known_events_contents_witness :
  known_events !! "PluginDisabledEvent" = Some PluginDisabledEvent
  ∧ run_statements ∅ [DelugeEvent; DelugeEvent] !! "DelugeEvent" = None.
Proof.
  destruct C8_known_events_contents as (_ & _ & _ & Hiff & _ & Hbase).
  split; [|apply Hbase].
  apply Hiff. split; [|reflexivity].
  unfold event_classes. in_list.
Defined.

(** C7 — the class names of the module are pairwise distinct, so every
    class statement of the module finds its name free, adds exactly one
    entry (the base class adds none), and that entry is still there,
    unchanged, after every later statement; no class statement,
    whatever the class, removes a key from the registry. *)
Theorem C7_registry_only_grows pre c post :
  module_classes = pre ++ c :: post →
  NoDup (class_name <$> module_classes)
  ∧ run_statements ∅ pre ⊆ run_statements ∅ (pre ++ [c])
  ∧ (class_name c ≠ "DelugeEvent" →
       run_statements ∅ pre !! class_name c = None
       ∧ run_statements ∅ (pre ++ [c])
         = <[class_name c := c]> (run_statements ∅ pre)
       ∧ size (run_statements ∅ (pre ++ [c]))
         = S (size (run_statements ∅ pre))
       ∧ ∀ mid rest, post = mid ++ rest →
           run_statements ∅ (pre ++ c :: mid) !! class_name c = Some c)
  ∧ (∀ (known : gmap string PyClass) cls,
       dom known ⊆ dom (class_statement known cls)).
Proof.
  intros Hsplit. pose proof module_class_names_NoDup as Hnd.
  rewrite Hsplit in Hnd at 1.
  destruct (run_statements_distinct pre c post Hnd) as [Hfree Hkept].
  assert (class_name c ≠ "DelugeEvent" →
          run_statements ∅ (pre ++ [c])
          = <[class_name c := c]> (run_statements ∅ pre)) as Hins.
  { intros Hb. rewrite run_statements_snoc. unfold class_statement.
    by rewrite metaclass_init_insert. }
  split_and!.
  - apply module_class_names_NoDup.
  - destruct (decide (class_name c = "DelugeEvent")) as [Hb|Hb].
    + rewrite run_statements_snoc. unfold class_statement.
      by rewrite Hb, metaclass_init_guarded.
    + rewrite Hins by done. by apply insert_subseteq.
  - intros Hb. split_and!; [done|by apply Hins| |by apply Hkept].
    rewrite Hins by done. by apply map_size_insert_None.
  - apply class_statement_dom.
Qed.

Lemma C7_registry_only_grows_witness :
  run_statements ∅ [DelugeEvent] !! "TorrentAddedEvent" = None
  ∧ run_statements ∅ [DelugeEvent; TorrentAddedEvent; TorrentRemovedEvent]
      !! "TorrentAddedEvent" = Some TorrentAddedEvent.
Proof.
  destruct (C7_registry_only_grows [DelugeEvent] TorrentAddedEvent
              (tail event_classes) eq_refl) as (_ & _ & Hstmt & _).
  destruct (Hstmt ltac:(discriminate)) as (Hfree & _ & _ & Hkept).
  split; [exact Hfree|].
  exact (Hkept [TorrentRemovedEvent] (tail (tail event_classes)) eq_refl).
Defined.

(** C6 — subscripting the registry with a name under which no class was
    registered raises [KeyError] (the dictionary's own error, which is
    what an unknown kind amounts to); with a registered name it returns
    the entry stored under that name. *)
Theorem C6_lookup_event stmts name :
  (name ∉ class_name <$> stmts ∨ name = "DelugeEvent" →
     lookup_event (run_statements ∅ stmts) name = raise (KeyError name))
  ∧ (name ∈ class_name <$> stmts → name ≠ "DelugeEvent" →
     ∃ c, c ∈ stmts ∧ class_name c = name
          ∧ run_statements ∅ stmts !! name = Some c
          ∧ lookup_event (run_statements ∅ stmts) name = ret c).
Proof.
  unfold lookup_event. split.
  - intros [Hno | ->].
    + by rewrite run_statements_unnamed, lookup_empty.
    + by rewrite run_statements_base.
  - intros Hin Hb.
    destruct (run_statements_named ∅ stmts name Hin Hb) as [c Hc].
    exists c. rewrite Hc.
    by apply run_statements_Some in Hc as (? & ? & _).
Qed.

Lemma C6_lookup_event_witness :
  lookup_event known_events "NoSuchEvent" = raise (KeyError "NoSuchEvent")
  ∧ ∃ c, c ∈ module_classes ∧ class_name c = "SessionPausedEvent"
         ∧ known_events !! "SessionPausedEvent" = Some c
         ∧ lookup_event known_events "SessionPausedEvent" = ret c.
Proof.
  split.
  - apply (proj1 (C6_lookup_event module_classes "NoSuchEvent")).
    left. by apply (bool_decide_unpack _); vm_compute.
  - apply (proj2 (C6_lookup_event module_classes "SessionPausedEvent")).
    + by apply (bool_decide_unpack _); vm_compute.
    + discriminate.
Defined.

(** C4, as the code has it — a class statement whose name is already a
    key of the registry does not fail: the metaclass stores the new class
    under that name in place of the old entry, and leaves every other
    entry and the set of keys as they were. *)
Theorem C4_duplicate_name_replaces cls name (known : gmap string PyClass) old :
  name ≠ "DelugeEvent" →
  known !! name = Some old →
  DelugeEventMetaClass_init cls name known !! name = Some cls
  ∧ (∀ k, k ≠ name →
       DelugeEventMetaClass_init cls name known !! k = known !! k)
  ∧ dom (DelugeEventMetaClass_init cls name known) = dom known.
Proof.
  intros Hb Hold. split_and!.
  - rewrite metaclass_init_insert by done. apply lookup_insert_eq.
  - intros k Hk. by apply metaclass_init_lookup_ne.
  - rewrite metaclass_init_insert by done.
    rewrite dom_insert_L. apply subseteq_union_1_L, singleton_subseteq_l.
  by apply elem_of_dom_2 in Hold.
Qed.

Lemma C4_duplicate_name_replaces_witness :
  class_statement known_events TorrentAddedEvent_redefined
    !! "TorrentAddedEvent" = Some TorrentAddedEvent_redefined
  ∧ dom (class_statement known_events TorrentAddedEvent_redefined)
    = dom known_events.
Proof.
  destruct (C4_duplicate_name_replaces TorrentAddedEvent_redefined
              "TorrentAddedEvent" known_events TorrentAddedEvent
              ltac:(discriminate) ltac:(by vm_compute))
    as (Hnew & _ & Hdom).
  split; [exact Hnew | exact Hdom].
Defined.

(** C4, as the claim has it, fails: the module's registry holds
    [TorrentAddedEvent] under its name; a second class statement with
    that name goes through, and afterwards the entry is the new class,
    which differs from the old one. *)
Lemma C4_duplicate_name_counterexample :
  known_events !! "TorrentAddedEvent" = Some TorrentAddedEvent
  ∧ class_statement known_events TorrentAddedEvent_redefined
      !! "TorrentAddedEvent" = Some TorrentAddedEvent_redefined
  ∧ TorrentAddedEvent_redefined ≠ TorrentAddedEvent.
Proof. split_and!; [by vm_compute..|discriminate]. Qed.

(** C1 — for each of the nineteen event classes, a call that supplies
    one positional argument per parameter returns an instance whose
    [args] is exactly the list of the arguments supplied, in the order
    of the parameters; and whenever a call returns, with positional and
    keyword arguments in any mix, [args] holds one value per parameter,
    in parameter order: the positional arguments, then the value each
    keyword gave to the remaining parameters. *)
Theorem C1_args_roundtrip cls pos kw :
  cls ∈ event_classes →
  (length pos = arity cls →
     ∃ e, construct cls pos ∅ = ret e ∧ _get_args e = ret (PyList pos))
  ∧ (∀ e, construct cls pos kw = ret e →
       ∃ kwvals,
         Forall2 (λ k v, kw !! k = Some v)
                 (drop (length pos) (parameters cls)) kwvals
         ∧ length (pos ++ kwvals) = arity cls
         ∧ _get_args e = ret (PyList (pos ++ kwvals))).
Proof.
  intros Hcls.
  pose proof (proj1 (Forall_forall _ _) event_classes_store_params _ Hcls)
    as Hwf.
  split.
  - intros Hlen.
    destruct (construct_positional cls pos Hwf Hlen) as (e & He & _ & Hargs).
    eauto.
  - intros e He.
    destruct (construct_ret_inv cls pos kw e Hwf He)
      as (_ & Hcount & kwvals & Hkw & Hargs).
    exists kwvals. split_and!; [done| |done].
    rewrite length_app, <- (Forall2_length _ _ _ Hkw), length_drop.
    unfold arity in *. lia.
Qed.

Lemma C1_args_roundtrip_witness :
  (∃ e, construct TorrentAddedEvent [PyStr "abc123"; PyBool false] ∅ = ret e
        ∧ _get_args e = ret (PyList [PyStr "abc123"; PyBool false]))
  ∧ (∃ e kwvals,
        construct TorrentFileRenamedEvent [PyStr "abc123"]
          {[ "name" := PyStr "b.txt"; "index" := PyInt 2 ]} = ret e
        ∧ _get_args e = ret (PyList (PyStr "abc123" :: kwvals))).
Proof.
  split.
  - apply (C1_args_roundtrip TorrentAddedEvent
             [PyStr "abc123"; PyBool false] ∅);
      [unfold event_classes; in_list | reflexivity].
  - eexists. 
    edestruct (proj2 (C1_args_roundtrip TorrentFileRenamedEvent
                 [PyStr "abc123"]
                 {[ "name" := PyStr "b.txt"; "index" := PyInt 2 ]}
                 ltac:(unfold event_classes; in_list)))
      as (kwvals & _ & _ & Hargs); [by vm_compute|].
    exists kwvals. split; [by vm_compute | exact Hargs].
Defined.

(** C2, as the code has it — calling [TorrentQueueChangedEvent] with no
    argument returns an instance whose [args] is the empty list (a list,
    not [None]) and whose [name] is the class name,
    ["TorrentQueueChangedEvent"]. *)
Theorem C2_queue_changed_event :
  ∃ e, construct TorrentQueueChangedEvent [] ∅ = ret e
       ∧ _get_args e = ret (PyList [])
       ∧ _get_name e = "TorrentQueueChangedEvent".
Proof. eexists. split_and!; by vm_compute. Qed.

(** C2, as the claim has it, fails on the name: the instance reports
    ["TorrentQueueChangedEvent"], which is not the string
    ["TorrentQueueChanged"]. *)
Lemma C2_kind_name_counterexample :
  ∃ e, construct TorrentQueueChangedEvent [] ∅ = ret e
       ∧ _get_name e = "TorrentQueueChangedEvent"
       ∧ String.eqb (_get_name e) "TorrentQueueChanged" = false.
Proof. eexists. split_and!; by vm_compute. Qed.

(** C3 — [name] is the name of the instance's class and nothing else:
    two calls of the same class, whatever their arguments, return
    instances with the same [name], that of the class; and for an event
    class of the module it is the key under which the metaclass stored
    that class. *)
Theorem C3_name_from_class cls pos1 kw1 pos2 kw2 e1 e2 :
  cls ∈ module_classes →
  construct cls pos1 kw1 = ret e1 →
  construct cls pos2 kw2 = ret e2 →
  _get_name e1 = class_name cls
  ∧ _get_name e2 = _get_name e1
  ∧ (cls ∈ event_classes → known_events !! _get_name e1 = Some cls)
  ∧ ∀ d, _get_name (mkInstance cls d) = class_name cls.
Proof.
  intros Hcls H1 H2.
  assert (class_stores_params cls) as Hwf.
  { apply elem_of_cons in Hcls as [->|Hcls]; [exact I|].
    by apply (proj1 (Forall_forall _ _) event_classes_store_params). }
  apply construct_ret_inv in H1 as (Hc1 & _); [|done].
  apply construct_ret_inv in H2 as (Hc2 & _); [|done].
  unfold _get_name. rewrite Hc1, Hc2. split_and!; [done..| |done].
  apply known_events_lookup.
Qed.

Lemma C3_name_from_class_witness :
  ∃ e1 e2,
    construct TorrentAddedEvent [PyStr "a"; PyBool true] ∅ = ret e1
    ∧ construct TorrentAddedEvent [PyStr "b"]
        {[ "from_state" := PyBool false ]} = ret e2
    ∧ _get_name e1 = "TorrentAddedEvent"
    ∧ _get_name e2 = _get_name e1
    ∧ known_events !! _get_name e1 = Some TorrentAddedEvent.
Proof.
  do 2 eexists.
  split; [by vm_compute|]. split; [by vm_compute|].
  destruct (C3_name_from_class TorrentAddedEvent
              [PyStr "a"; PyBool true] ∅
              [PyStr "b"] {[ "from_state" := PyBool false ]} _ _
              ltac:(unfold module_classes, event_classes; in_list)
              eq_refl eq_refl) as (Hn1 & Hn2 & Hreg & _).
  split_and!; [exact Hn1 | exact Hn2 |].
  apply Hreg. unfold event_classes. in_list.
Defined.

(** C5, as the code has it — for each of the nineteen event classes, a
    call whose number of arguments (positional plus keyword) is not the
    number of parameters raises [TypeError] and returns no instance;
    the values themselves are never inspected: one positional argument
    per parameter, of whatever type, returns an instance that holds
    those values. *)
Theorem C5_arity_checked_values_not cls pos kw :
  cls ∈ event_classes →
  (length pos + size kw ≠ arity cls → construct cls pos kw = raise TypeError)
  ∧ (length pos = arity cls →
     ∃ e, construct cls pos ∅ = ret e ∧ _get_args e = ret (PyList pos)).
Proof.
  intros Hcls.
  pose proof (proj1 (Forall_forall _ _) event_classes_store_params _ Hcls)
    as Hwf.
  split.
  - intros Hlen. destruct (construct cls pos kw) as [ex|e] eqn:Hc.
    + by rewrite (construct_raise_inv cls pos kw ex Hwf Hc).
    + by apply construct_ret_inv in Hc as (_ & ? & _).
  - intros Hlen.
    destruct (construct_positional cls pos Hwf Hlen) as (e & He & _ & Hargs).
    eauto.
Qed.

Lemma C5_arity_checked_values_not_witness :
  construct TorrentAddedEvent [PyStr "abc123"] ∅ = raise TypeError
  ∧ construct SessionStartedEvent [PyNone] ∅ = raise TypeError
  ∧ ∃ e, construct ConfigValueChangedEvent [PyInt 1; PyList []] ∅ = ret e
         ∧ _get_args e = ret (PyList [PyInt 1; PyList []]).
Proof.
  split_and!.
  - apply (C5_arity_checked_values_not TorrentAddedEvent [PyStr "abc123"] ∅);
      [unfold event_classes; in_list | by vm_compute].
  - apply (C5_arity_checked_values_not SessionStartedEvent [PyNone] ∅);
      [unfold event_classes; in_list | by vm_compute].
  - apply (C5_arity_checked_values_not ConfigValueChangedEvent
             [PyInt 1; PyList []] ∅);
      [unfold event_classes; in_list | reflexivity].
Defined.

(** C5, as the claim has it, fails on the types: the docstring of
    [TorrentAddedEvent.__init__] gives [torrent_id] the type string, an
    integer is not a string, and yet the call with an integer in that
    place returns an instance that holds it. *)
Lemma C5_ill_typed_accepted_counterexample :
  init_doc_types <$> resolve_init TorrentAddedEvent
    = Some [Some TyString; Some TyBool]
  ∧ has_type (PyInt 7) TyString = false
  ∧ ∃ e, construct TorrentAddedEvent [PyInt 7; PyBool true] ∅ = ret e
         ∧ _get_args e = ret (PyList [PyInt 7; PyBool true]).
Proof. split_and!; [done..|]. eexists. split; by vm_compute. Qed.

(** C9 — reading [args] never raises, whatever the instance; when the
    instance has no [_args] attribute the result is the empty list; and
    that is the case of the instances of every class of the module
    without an [__init__] of its own: the three session events, the
    queue event and [DelugeEvent] itself. *)
Theorem C9_args_total :
  (∀ e, ∃ v, _get_args e = ret v)
  ∧ (∀ e, inst_dict e !! "_args" = None → _get_args e = ret (PyList []))
  ∧ (∀ cls, cls ∈ module_classes → resolve_init cls = None →
       ∃ e, construct cls [] ∅ = ret e
            ∧ inst_dict e !! "_args" = None
            ∧ _get_args e = ret (PyList []))
  ∧ filter (λ c, resolve_init c = None) module_classes
    = [DelugeEvent; TorrentQueueChangedEvent; SessionStartedEvent;
       SessionPausedEvent; SessionResumedEvent].
Proof.
  split_and!.
  - intros e. destruct (inst_dict e !! "_args") as [v|] eqn:He.
    + exists v. by apply get_args_stored.
    + exists (PyList []). by apply get_args_default.
  - apply get_args_default.
  - intros cls _ Hinit. exists (mkInstance cls ∅).
    unfold construct. rewrite Hinit.
    case_decide as Hno; [|by destruct Hno].
    split_and!; [done|apply lookup_empty|].
    apply get_args_default, lookup_empty.
  - by vm_compute.
Qed.

Lemma C9_args_total_witness :
  (∃ v, _get_args (mkInstance TorrentAddedEvent {[ "_args" := PyNone ]})
        = ret v)
  ∧ ∃ e, construct SessionStartedEvent [] ∅ = ret e
         ∧ inst_dict e !! "_args" = None
         ∧ _get_args e = ret (PyList []).
Proof.
  destruct C9_args_total as (Htotal & _ & Hempty & _).
  split; [apply Htotal|].
  apply Hempty; [unfold module_classes, event_classes; in_list|reflexivity].
Defined.

(** C10 — for every instance of one of the nineteen event classes,
    whatever its attributes, subscripting the registry with the
    instance's [name] returns the instance's class. *)
Theorem C10_name_registry_agree e :
  inst_class e ∈ event_classes →
  lookup_event known_events (_get_name e) = ret (inst_class e).
Proof.
  intros Hcls. unfold lookup_event, _get_name.
  by rewrite known_events_lookup.
Qed.

Lemma C10_name_registry_agree_witness :
  lookup_event known_events
    (_get_name (mkInstance PluginEnabledEvent
                  {[ "_args" := PyList [PyStr "Label"] ]}))
  = ret PluginEnabledEvent.
Proof.
  apply (C10_name_registry_agree
           (mkInstance PluginEnabledEvent
              {[ "_args" := PyList [PyStr "Label"] ]})).
  simpl. unfold event_classes. in_list.
Defined.

(** The guard of the metaclass keeps the base class out: an instance of
    [DelugeEvent] itself reports a name that is not a key. *)
Remark base_instance_not_registered :
  ∃ e, construct DelugeEvent [] ∅ = ret e
       ∧ _get_name e = "DelugeEvent"
       ∧ lookup_event known_events (_get_name e)
         = raise (KeyError "DelugeEvent").
Proof. eexists. split_and!; by vm_compute. Qed.


(** * Further properties of the module *)

(** ** The registry under arbitrary class statements *)

Section registry_extra.
Implicit Types (known : gmap string PyClass) (cls c d : PyClass).
Implicit Types (stmts : list PyClass) (name k : string).

Lemma class_statement_lookup_base known cls :
  class_statement known cls !! "DelugeEvent" = known !! "DelugeEvent".
Proof.
  unfold class_statement, DelugeEventMetaClass_init.
  case_decide; [by rewrite lookup_insert_ne|done].
Qed.

Lemma named_snoc name stmts d :
  named name (stmts ++ [d])
  = named name stmts ++ (if decide (class_name d = name) then [d] else []).
Proof.
  unfold named. by rewrite filter_app.
Qed.

Lemma class_statement_size known cls :
  size (class_statement known cls) ≤ S (size known).
Proof.
  unfold class_statement, DelugeEventMetaClass_init. case_decide; [|lia].
  rewrite map_size_insert. destruct (known !! class_name cls); simpl; lia.
Qed.

Lemma class_statement_dom_eq known cls :
  dom (class_statement known cls)
  = dom known ∪ list_to_set (filter (λ n, n ≠ "DelugeEvent") [class_name cls]).
Proof.
  unfold class_statement, DelugeEventMetaClass_init. case_decide.
  - rewrite filter_cons_True, filter_nil, dom_insert_L by done.
    rewrite list_to_set_cons, list_to_set_nil, (right_id_L ∅ (∪)).
    apply (comm_L (∪)).
  - rewrite filter_cons_False, filter_nil by naive_solver.
    by rewrite list_to_set_nil, (right_id_L ∅ (∪)).
Qed.

Lemma class_statement_keyed known cls :
  keyed_by_name known → keyed_by_name (class_statement known cls).
Proof.
  intros Hinv k c. unfold class_statement, DelugeEventMetaClass_init.
  case_decide as Hb; [|apply Hinv].
  destruct (decide (k = class_name cls)) as [->|Hne].
  - rewrite lookup_insert_eq. by intros [= <-].
  - rewrite lookup_insert_ne by done. apply Hinv.
Qed.

Lemma class_statement_swap known c d :
  class_name c ≠ class_name d →
  class_statement (class_statement known c) d
  = class_statement (class_statement known d) c.
Proof.
  intros Hne. unfold class_statement, DelugeEventMetaClass_init.
  repeat case_decide; try done. by apply insert_insert_ne.
Qed.
End registry_extra.

(** X1 — after any sequence of class statements, the entry under a name
    is the class of the last statement that bears that name; a name that
    no statement bears keeps the entry it had, and the statements named
    ["DelugeEvent"] never touch the registry. *)
Theorem registry_last_definition_wins
    (known : gmap string PyClass) (stmts : list PyClass) (name : string) :
  run_statements known stmts !! name
  = if decide (name = "DelugeEvent") then known !! name
    else from_option Some (known !! name) (last (named name stmts)).
Proof.
  induction stmts as [|d stmts IH] using rev_ind.
  - simpl. by case_decide.
  - rewrite run_statements_snoc, named_snoc.
    destruct (decide (name = "DelugeEvent")) as [->|Hb].
    + rewrite class_statement_lookup_base. exact IH.
    + destruct (decide (class_name d = name)) as [<-|Hne].
      * rewrite last_snoc. simpl. by apply class_statement_lookup_eq.
      * rewrite app_nil_r, class_statement_lookup_ne by done. exact IH.
Qed.

(** X2 — the keys after a sequence of class statements are the keys
    before it together with the names of the statements other than
    ["DelugeEvent"]; starting from the empty registry there are at most
    as many entries as statements. *)
Theorem registry_keys (known : gmap string PyClass) (stmts : list PyClass) :
  dom (run_statements known stmts)
  = dom known
    ∪ list_to_set (filter (λ n, n ≠ "DelugeEvent") (class_name <$> stmts))
  ∧ size (run_statements known stmts) ≤ size known + length stmts.
Proof.
  induction stmts as [|d stmts [IHdom IHsize]] using rev_ind.
  - simpl. split; [|lia].
    by rewrite (right_id_L ∅ (∪)).
  - rewrite run_statements_snoc. split.
    + rewrite class_statement_dom_eq, IHdom, fmap_app, filter_app.
      by rewrite list_to_set_app_L, (assoc_L (∪)).
    + pose proof (class_statement_size (run_statements known stmts) d).
      rewrite length_app. simpl. lia.
Qed.

(** X3 — every class statement keeps the registry keyed by class name:
    if each entry sits under the [__name__] of its class, and
    ["DelugeEvent"] is not a key, the same holds after any sequence of
    class statements. The empty registry of the module start is such. *)
Theorem registry_keyed_by_name
    (known : gmap string PyClass) (stmts : list PyClass) :
  keyed_by_name known → keyed_by_name (run_statements known stmts).
Proof.
  intros Hinv. induction stmts as [|d stmts IH] using rev_ind; [done|].
  rewrite run_statements_snoc. by apply class_statement_keyed.
Qed.

Lemma registry_keyed_by_name_witness :
  keyed_by_name ∅
  ∧ ∀ k c, known_events !! k = Some c → class_name c = k ∧ k ≠ "DelugeEvent".
Proof.
  assert (keyed_by_name ∅) as Hempty.
  { intros k c Hk. by rewrite lookup_empty in Hk. }
  split; [exact Hempty|].
  exact (registry_keyed_by_name ∅ module_classes Hempty).
Defined.

(** X4 — when the names of the statements are pairwise distinct, the
    registry they leave does not depend on the order in which they
    run. *)
Theorem registry_order_irrelevant
    (known : gmap string PyClass) (stmts stmts' : list PyClass) :
  stmts ≡ₚ stmts' →
  NoDup (class_name <$> stmts) →
  run_statements known stmts = run_statements known stmts'.
Proof.
  intros Hperm. revert known.
  induction Hperm as [|c l l' _ IH|c d l|l l' l'' Hp1 IH1 Hp2 IH2];
    intros known Hnd.
  - done.
  - simpl. apply IH. rewrite fmap_cons in Hnd. by apply NoDup_cons in Hnd as [_ ?].
  - simpl. f_equal. apply class_statement_swap.
    rewrite !fmap_cons in Hnd. apply NoDup_cons in Hnd as [Hd _].
    rewrite not_elem_of_cons in Hd. by destruct Hd.
  - rewrite IH1 by done. apply IH2. by rewrite <- Hp1.
Qed.

Lemma registry_order_irrelevant_witness :
  run_statements ∅ (reverse module_classes) = known_events.
Proof.
  symmetry.
  apply (registry_order_irrelevant ∅ module_classes (reverse module_classes)).
  - symmetry. apply reverse_Permutation.
  - by apply (bool_decide_unpack _); vm_compute.
Defined.

(** ** Calls: which succeed, and what they leave *)

Section calls_extra.
Implicit Types (cls : PyClass) (pos items : list PyVal) (e : Instance).
Implicit Types (kw : gmap string PyVal) (params : list string).

(** A binding that succeeds used every keyword for one of the
    parameters left after the positional arguments, and left none of
    those without a keyword. *)
Lemma bind_args_keywords params pos kw locals :
  bind_args params pos kw = ret locals →
  length pos ≤ length params
  ∧ dom kw = list_to_set (drop (length pos) params).
Proof.
  intros (Hlen & Hfilled & Hdom & Hrest & _)%bind_args_ret_inv.
  split; [done|].
  apply set_eq. intros k. rewrite elem_of_dom, elem_of_list_to_set. split.
  - intros Hk. assert (k ∈ params) as Hin.
    { apply (elem_of_list_to_set (C := gset string)), Hdom.
      by apply elem_of_dom. }
    rewrite <- (take_drop (length pos) params), elem_of_app in Hin.
    destruct Hin as [Hin|Hin]; [|done].
    rewrite Forall_forall in Hfilled.
    rewrite (Hfilled _ Hin) in Hk. by destruct Hk.
  - rewrite Forall_forall in Hrest. apply Hrest.
Qed.

Lemma bind_args_succeeds params pos kw :
  NoDup params →
  length pos ≤ length params →
  dom kw = list_to_set (drop (length pos) params) →
  ∃ locals, bind_args params pos kw = ret locals.
Proof.
  intros Hnd Hlen Hdom. unfold bind_args.
  case_decide; [lia|].
  assert (∀ k, is_Some (kw !! k) ↔ k ∈ drop (length pos) params) as Hkw.
  { intros k. by rewrite <- elem_of_dom, Hdom, elem_of_list_to_set. }
  rewrite <- (take_drop (length pos) params) in Hnd.
  apply NoDup_app in Hnd as (_ & Hdisj & _).
  replace (forallb _ (take _ _)) with true; simpl.
  2:{ symmetry. apply forallb_forall. intros k Hk%list_elem_of_In.
      apply bool_decide_eq_true, eq_None_not_Some.
      rewrite Hkw. by apply Hdisj. }
  rewrite bool_decide_eq_true_2; simpl.
  2:{ intros k. rewrite elem_of_dom, Hkw, elem_of_list_to_set.
      intros Hk. rewrite <- (take_drop (length pos) params), elem_of_app.
      by right. }
  replace (forallb _ (drop _ _)) with true; simpl; [eauto|].
  symmetry. apply forallb_forall. intros k Hk%list_elem_of_In.
  by apply bool_decide_eq_true, Hkw.
Qed.

Lemma module_classes_store_params cls :
  cls ∈ module_classes → class_stores_params cls.
Proof.
  intros [->|Hcls]%elem_of_cons; [exact I|].
  by apply (proj1 (Forall_forall _ _) event_classes_store_params).
Qed.

(** The instance a call returns is determined by its class and by
    what [args] reads. *)
Lemma construct_shape cls pos kw e items :
  class_stores_params cls →
  construct cls pos kw = ret e →
  _get_args e = ret (PyList items) →
  e = mkInstance cls
        (match resolve_init cls with
         | Some _ => <["_args" := PyList items]> ∅
         | None => ∅
         end).
Proof.
  unfold class_stores_params, construct.
  destruct (resolve_init cls) as [i|].
  - intros _ Hrun. unfold run_init in Hrun.
    apply bind_ret_inv in Hrun as (locals & _ & Hrun).
    apply bind_ret_inv in Hrun as (items' & _ & [= <-]).
    rewrite (get_args_stored _ (PyList items'))
      by (simpl; apply lookup_insert_eq).
    by intros [= ->].
  - intros _. case_decide; [|discriminate]. by intros [= <-].
Qed.
End calls_extra.

(** X5 — a call of a class of the module returns an instance exactly
    when there are no more positional arguments than parameters and the
    keywords are the names of the remaining parameters, each once; any
    other call raises. *)
Theorem construct_succeeds_iff
    (cls : PyClass) (pos : list PyVal) (kw : gmap string PyVal) :
  cls ∈ module_classes →
  (∃ e, construct cls pos kw = ret e)
  ↔ length pos ≤ arity cls
    ∧ dom kw = list_to_set (drop (length pos) (parameters cls)).
Proof.
  intros Hwf%module_classes_store_params. revert Hwf.
  unfold class_stores_params, construct, arity, parameters.
  destruct (resolve_init cls) as [i|].
  - intros [Hnd Hbody]. unfold run_init. split.
    + intros [e (locals & Hbind & _)%bind_ret_inv].
      by eapply bind_args_keywords.
    + intros [Hlen Hdom].
      destruct (bind_args_succeeds _ _ _ Hnd Hlen Hdom) as [locals Hbind].
      destruct (eval_params_after_bind _ _ _ _ Hnd Hbind)
        as (kwvals & _ & Heval).
      rewrite Hbind. simpl. rewrite Hbody, Heval. simpl. eauto.
  - intros _. split.
    + case_decide as Hno; [|by intros [? ?]].
      destruct Hno as [-> ->]. intros _. split; [done|].
      by rewrite dom_empty_L.
    + intros [Hlen Hdom]. simpl in Hlen. rewrite drop_nil in Hdom.
      apply Nat.le_0_r, nil_length_inv in Hlen as ->.
      apply dom_empty_inv_L in Hdom as ->.
      case_decide as Hno; [eauto|by destruct Hno].
Qed.

Lemma construct_succeeds_iff_witness :
  (∃ e, construct TorrentFileRenamedEvent [PyStr "abc123"]
          {[ "name" := PyStr "b.txt"; "index" := PyInt 2 ]} = ret e)
  ∧ length [PyStr "abc123"] ≤ arity TorrentAddedEvent
  ∧ dom ({[ "from_state" := PyBool true ]} : gmap string PyVal)
    = list_to_set (drop 1 (parameters TorrentAddedEvent)).
Proof.
  split.
  - apply (construct_succeeds_iff TorrentFileRenamedEvent [PyStr "abc123"]
             {[ "name" := PyStr "b.txt"; "index" := PyInt 2 ]}).
    + unfold module_classes, event_classes. in_list.
    + split; [vm_compute; lia | by vm_compute].
  - apply (construct_succeeds_iff TorrentAddedEvent [PyStr "abc123"]
             {[ "from_state" := PyBool true ]}).
    + unfold module_classes, event_classes. in_list.
    + eexists. by vm_compute.
Defined.

(** X6 — an event is recovered from what goes on the wire: for an
    instance returned by a call of an event class, subscripting the
    registry with its [name] and calling the class found with the items
    of its [args] as positional arguments returns the same instance. *)
Theorem event_rebuilt_from_name_and_args
    (cls : PyClass) (pos : list PyVal) (kw : gmap string PyVal)
    (e : Instance) :
  cls ∈ event_classes →
  construct cls pos kw = ret e →
  ∃ items cls',
    _get_args e = ret (PyList items)
    ∧ lookup_event known_events (_get_name e) = ret cls'
    ∧ construct cls' items ∅ = ret e.
Proof.
  intros Hcls He.
  pose proof (proj1 (Forall_forall _ _) event_classes_store_params _ Hcls)
    as Hwf.
  destruct (construct_ret_inv cls pos kw e Hwf He)
    as (Hclass & Hcount & kwvals & Hkw & Hargs).
  exists (pos ++ kwvals), cls. split_and!; [done| |].
  - unfold lookup_event, _get_name. rewrite Hclass.
    by rewrite known_events_lookup.
  - assert (length (pos ++ kwvals) = arity cls) as Hlen.
    { rewrite length_app, <- (Forall2_length _ _ _ Hkw), length_drop.
      unfold arity in *. lia. }
    destruct (construct_positional cls (pos ++ kwvals) Hwf Hlen)
      as (e' & He' & _ & Hargs').
    rewrite He'. f_equal.
    rewrite (construct_shape _ _ _ _ _ Hwf He Hargs).
    by rewrite (construct_shape _ _ _ _ _ Hwf He' Hargs').
Qed.

Lemma event_rebuilt_from_name_and_args_witness :
  ∃ e items cls',
    construct TorrentFileRenamedEvent [PyStr "abc123"]
      {[ "name" := PyStr "b.txt"; "index" := PyInt 2 ]} = ret e
    ∧ _get_args e = ret (PyList items)
    ∧ lookup_event known_events (_get_name e) = ret cls'
    ∧ construct cls' items ∅ = ret e.
Proof.
  eexists.
  edestruct (event_rebuilt_from_name_and_args TorrentFileRenamedEvent
               [PyStr "abc123"]
               {[ "name" := PyStr "b.txt"; "index" := PyInt 2 ]}
               _ ltac:(unfold event_classes; in_list) eq_refl)
    as (items & cls' & Hargs & Hlook & Hcall).
  exists items, cls'. split; [by vm_compute|].
  split_and!; [exact Hargs | exact Hlook | exact Hcall].
Defined.

(** ** The list behind [args] *)

Section store_extra.
Import Store.
Implicit Types (h : Heap) (o : Obj) (l r : nat) (items : list PyVal).

Lemma heap_ok_empty : heap_ok (mkHeap ∅ 0).
Proof. intros l [items Hl]. simpl in Hl. by rewrite lookup_empty in Hl. Qed.

Lemma heap_ok_next_free h : heap_ok h → heap_lists h !! heap_next h = None.
Proof.
  intros Hok. apply eq_None_not_Some. intros Hsome.
  apply Hok in Hsome. lia.
Qed.

Lemma new_list_ok items h : heap_ok h → heap_ok (new_list items h).2.
Proof.
  intros Hok l. simpl.
  destruct (decide (l = heap_next h)) as [->|Hne]; [lia|].
  rewrite lookup_insert_ne by done. intros Hl%Hok. lia.
Qed.

Lemma new_list_old items h l :
  heap_ok h → is_Some (heap_lists h !! l) →
  heap_lists (new_list items h).2 !! l = heap_lists h !! l.
Proof.
  intros Hok Hl%Hok. simpl. apply lookup_insert_ne. lia.
Qed.

Lemma instance_of_args o h l items :
  obj_dict o !! "_args" = Some l →
  heap_lists h !! l = Some items →
  inst_dict (instance_of o h) !! "_args" = Some (PyList items).
Proof.
  intros Ho Hl. unfold instance_of. simpl.
  by rewrite lookup_omap, Ho; simpl; rewrite Hl.
Qed.

Lemma instance_of_no_args o h :
  obj_dict o !! "_args" = None →
  inst_dict (instance_of o h) !! "_args" = None.
Proof.
  intros Ho. unfold instance_of. simpl. by rewrite lookup_omap, Ho.
Qed.
End store_extra.

(** X7 — when the instance has an [_args] attribute, [args] hands out
    that very list and allocates nothing: an item appended to the list
    that [args] returned is there the next time [args] is read. *)
Theorem args_is_the_stored_list
    (o : Store.Obj) (h h1 h2 : Store.Heap) (l r r' : nat)
    (items : list PyVal) (x : PyVal) :
  Store.obj_dict o !! "_args" = Some l →
  Store.heap_lists h !! l = Some items →
  Store._get_args o h = (r, h1) →
  Store._get_args o (Store.list_append r x h1) = (r', h2) →
  r = l ∧ h1 = h ∧ r' = l
  ∧ Store.heap_lists h2 !! r' = Some (items ++ [x])
  ∧ _get_args (Store.instance_of o h2) = ret (PyList (items ++ [x])).
Proof.
  intros Ho Hl. unfold Store._get_args. rewrite Ho.
  intros [= <- <-] [= <- <-].
  assert (Store.heap_lists (Store.list_append l x h) !! l
          = Some (items ++ [x])) as Hl'.
  { simpl. by rewrite lookup_alter_eq, Hl. }
  split_and!; [done..|].
  apply get_args_stored. by eapply instance_of_args.
Qed.

Lemma args_is_the_stored_list_witness :
  Store._get_args
    (Store.mkObj PluginEnabledEvent {[ "_args" := 0 ]})
    (Store.list_append 0 (PyStr "extra")
       (Store.mkHeap {[ 0 := [PyStr "Label"] ]} 1))
  = (0, Store.mkHeap {[ 0 := [PyStr "Label"; PyStr "extra"] ]} 1)
  ∧ _get_args
      (Store.instance_of
         (Store.mkObj PluginEnabledEvent {[ "_args" := 0 ]})
         (Store.mkHeap {[ 0 := [PyStr "Label"; PyStr "extra"] ]} 1))
    = ret (PyList [PyStr "Label"; PyStr "extra"]).
Proof.
  split; [by vm_compute|].
  apply (args_is_the_stored_list
           (Store.mkObj PluginEnabledEvent {[ "_args" := 0 ]})
           (Store.mkHeap {[ 0 := [PyStr "Label"] ]} 1)
           (Store.mkHeap {[ 0 := [PyStr "Label"] ]} 1)
           (Store.mkHeap {[ 0 := [PyStr "Label"; PyStr "extra"] ]} 1)
           0 0 0 [PyStr "Label"] (PyStr "extra"));
    by vm_compute.
Defined.

(** X8 — when the instance has no [_args] attribute, every read of
    [args] makes a new empty list: an item appended to the list that
    [args] returned stays in that list, the next read returns another
    list, empty again, and the lists that existed before are as they
    were. *)
Theorem args_default_is_a_new_list
    (o : Store.Obj) (h h1 h2 : Store.Heap) (r r' : nat) (x : PyVal) :
  Store.heap_ok h →
  Store.obj_dict o !! "_args" = None →
  Store._get_args o h = (r, h1) →
  Store._get_args o (Store.list_append r x h1) = (r', h2) →
  Store.heap_lists h !! r = None
  ∧ Store.heap_lists h1 !! r = Some []
  ∧ r' ≠ r
  ∧ Store.heap_lists h2 !! r' = Some []
  ∧ Store.heap_lists h2 !! r = Some [x]
  ∧ _get_args (Store.instance_of o h2) = ret (PyList [])
  ∧ ∀ l, is_Some (Store.heap_lists h !! l) →
         Store.heap_lists h2 !! l = Store.heap_lists h !! l.
Proof.
  intros Hok Ho. unfold Store._get_args. rewrite Ho.
  intros [= <- <-] [= <- <-]. simpl.
  split_and!.
  - by apply heap_ok_next_free.
  - apply lookup_insert_eq.
  - lia.
  - apply lookup_insert_eq.
  - rewrite lookup_insert_ne by lia.
    by rewrite lookup_alter_eq, lookup_insert_eq.
  - apply get_args_default. by apply instance_of_no_args.
  - intros l Hl%Hok.
    rewrite lookup_insert_ne by lia.
    rewrite lookup_alter_ne by lia.
    apply lookup_insert_ne. lia.
Qed.

Lemma args_default_is_a_new_list_witness :
  Store._get_args (Store.mkObj SessionStartedEvent ∅)
    (Store.list_append 0 (PyStr "extra") (Store.mkHeap {[ 0 := [] ]} 1))
  = (1, Store.mkHeap {[ 0 := [PyStr "extra"]; 1 := [] ]} 2)
  ∧ 1 ≠ 0
  ∧ _get_args
      (Store.instance_of (Store.mkObj SessionStartedEvent ∅)
         (Store.mkHeap {[ 0 := [PyStr "extra"]; 1 := [] ]} 2))
    = ret (PyList []).
Proof.
  split; [by vm_compute|].
  destruct (args_default_is_a_new_list
              (Store.mkObj SessionStartedEvent ∅)
              (Store.mkHeap ∅ 0)
              (Store.mkHeap {[ 0 := [] ]} 1)
              (Store.mkHeap {[ 0 := [PyStr "extra"]; 1 := [] ]} 2)
              0 1 (PyStr "extra")
              heap_ok_empty ltac:(by vm_compute) ltac:(by vm_compute)
              ltac:(by vm_compute))
    as (_ & _ & Hne & _ & _ & Hargs & _).
  split; [exact Hne | exact Hargs].
Defined.

(** ** Construction in the store *)

Section store_construct.
Import Store.
Implicit Types (h : Heap) (o : Obj) (l : nat) (cls : PyClass).
Implicit Types (pos items : list PyVal) (kw : gmap string PyVal).

(** What a call leaves in the store: nothing for a class without
    [__init__]; otherwise one new list, at the location that was free,
    and [_args] as the only attribute, referring to it. *)
Lemma store_construct_inv cls pos kw h o h' :
  Store.construct cls pos kw h = ret (o, h') →
  obj_class o = cls
  ∧ ((obj_dict o = ∅ ∧ h' = h)
     ∨ ∃ items, obj_dict o = {[ "_args" := heap_next h ]}
                ∧ h' = (new_list items h).2).
Proof.
  unfold Store.construct. destruct (resolve_init cls) as [i|].
  - intros (locals & _ & Hrun)%bind_ret_inv.
    apply bind_ret_inv in Hrun as (items & _ & [= <- <-]).
    split; [done|]. right. by exists items.
  - case_decide; [|discriminate]. intros [= <- <-]. split; [done|]. by left.
Qed.

Lemma instance_of_singleton cls l items h :
  heap_lists h !! l = Some items →
  instance_of (mkObj cls {[ "_args" := l ]}) h
  = mkInstance cls (<["_args" := PyList items]> ∅).
Proof.
  intros Hl. unfold instance_of. simpl. f_equal.
  rewrite insert_empty. apply omap_singleton_Some. by rewrite Hl.
Qed.
End store_construct.

(** X9 — the call in the store and the call on values agree: they
    raise the same exceptions, and the instance built in the store,
    with each attribute replaced by the contents of its list, is the
    instance built on values. The call leaves the store well formed,
    puts the list of [_args] at a location that held nothing, and
    leaves every earlier list as it was. *)
Theorem store_construct_refines
    (cls : PyClass) (pos : list PyVal) (kw : gmap string PyVal)
    (h : Store.Heap) :
  Store.heap_ok h →
  (∀ ex, Store.construct cls pos kw h = raise ex
         ↔ construct cls pos kw = raise ex)
  ∧ ∀ o h', Store.construct cls pos kw h = ret (o, h') →
      construct cls pos kw = ret (Store.instance_of o h')
      ∧ Store.heap_ok h'
      ∧ (∀ l, Store.obj_dict o !! "_args" = Some l →
              Store.heap_lists h !! l = None)
      ∧ (∀ l, is_Some (Store.heap_lists h !! l) →
              Store.heap_lists h' !! l = Store.heap_lists h !! l).
Proof.
  intros Hok. unfold Store.construct, construct, run_init.
  destruct (resolve_init cls) as [i|].
  - destruct (bind_args (init_params i) pos kw) as [ex'|locals]; simpl.
    { split; [by intros ex; split; intros [= <-] | intros ? ? [=]]. }
    destruct (mapM (eval_name locals) (init_body_args i)) as [ex'|items];
      simpl.
    { split; [by intros ex; split; intros [= <-] | intros ? ? [=]]. }
    split; [by split|].
    intros o h' [= <- <-]. split_and!.
    + f_equal. symmetry. apply instance_of_singleton. apply lookup_insert_eq.
    + by apply (new_list_ok items).
    + simpl. intros l [_ <-]%lookup_singleton_Some.
      by apply heap_ok_next_free.
    + intros l Hl. by apply (new_list_old items).
  - case_decide; simpl.
    + split; [by split|]. intros o h' [= <- <-]. by split_and!.
    + split; [by intros ex; split; intros [= <-] | intros ? ? [=]].
Qed.

Lemma store_construct_refines_witness :
  Store.construct TorrentAddedEvent [PyStr "abc123"; PyBool false] ∅
    (Store.mkHeap ∅ 0)
  = ret (Store.mkObj TorrentAddedEvent {[ "_args" := 0 ]},
         Store.mkHeap {[ 0 := [PyStr "abc123"; PyBool false] ]} 1)
  ∧ construct TorrentAddedEvent [PyStr "abc123"; PyBool false] ∅
    = ret (Store.instance_of
             (Store.mkObj TorrentAddedEvent {[ "_args" := 0 ]})
             (Store.mkHeap {[ 0 := [PyStr "abc123"; PyBool false] ]} 1))
  ∧ Store.heap_ok
      (Store.mkHeap {[ 0 := [PyStr "abc123"; PyBool false] ]} 1).
Proof.
  assert (Store.construct TorrentAddedEvent [PyStr "abc123"; PyBool false] ∅
            (Store.mkHeap ∅ 0)
          = ret (Store.mkObj TorrentAddedEvent {[ "_args" := 0 ]},
                 Store.mkHeap {[ 0 := [PyStr "abc123"; PyBool false] ]} 1))
    as Hcall by (vm_compute; reflexivity).
  split; [exact Hcall|].
  pose proof (proj2 (store_construct_refines _ _ _ _ heap_ok_empty)
                _ _ Hcall) as Hrefines.
  split; [exact (proj1 Hrefines) | exact (proj1 (proj2 Hrefines))].
Defined.

(** X10 — two instances never share the list behind [args]: after two
    calls in a row, the list of the second instance is not the list of
    the first, the first instance reads as before the second call, and
    still does after an item is appended to the second instance's
    list. *)
Theorem instances_do_not_share_args
    (c1 c2 : PyClass) (pos1 pos2 : list PyVal) (kw1 kw2 : gmap string PyVal)
    (h h1 h2 : Store.Heap) (o1 o2 : Store.Obj) (l2 : nat) (x : PyVal) :
  Store.construct c1 pos1 kw1 h = ret (o1, h1) →
  Store.construct c2 pos2 kw2 h1 = ret (o2, h2) →
  Store.obj_dict o2 !! "_args" = Some l2 →
  Store.obj_dict o1 !! "_args" ≠ Some l2
  ∧ Store.instance_of o1 h2 = Store.instance_of o1 h1
  ∧ Store.instance_of o1 (Store.list_append l2 x h2)
    = Store.instance_of o1 h1.
Proof.
  intros (_ & H1)%store_construct_inv (_ & H2)%store_construct_inv Hl2.
  destruct H2 as [[Hd2 _]|(items2 & Hd2 & ->)].
  { by rewrite Hd2, lookup_empty in Hl2. }
  rewrite Hd2 in Hl2. apply lookup_singleton_Some in Hl2 as [_ <-].
  destruct H1 as [[Hd1 ->]|(items1 & Hd1 & ->)].
  - rewrite Hd1. split; [by rewrite lookup_empty|].
    unfold Store.instance_of. rewrite Hd1, !omap_empty. done.
  - rewrite Hd1. simpl. split.
    + rewrite lookup_singleton_eq. intros [= Heq]. lia.
    + unfold Store.instance_of. simpl. rewrite Hd1.
      rewrite !omap_singleton. simpl.
      rewrite lookup_alter_ne by lia.
      by rewrite !(lookup_insert_ne _ (S _)) by lia.
Qed.

Lemma instances_do_not_share_args_witness :
  ∃ o1 h1 o2 h2,
    Store.construct PluginEnabledEvent [PyStr "Label"] ∅ (Store.mkHeap ∅ 0)
    = ret (o1, h1)
    ∧ Store.construct PluginDisabledEvent [PyStr "Label"] ∅ h1 = ret (o2, h2)
    ∧ Store.instance_of o1 (Store.list_append 1 (PyStr "extra") h2)
      = Store.instance_of o1 h1.
Proof.
  do 4 eexists. split; [by vm_compute|]. split; [by vm_compute|].
  eapply (instances_do_not_share_args PluginEnabledEvent PluginDisabledEvent
            [PyStr "Label"] [PyStr "Label"] ∅ ∅ (Store.mkHeap ∅ 0));
    by vm_compute.
Defined.

(** X11 — reading [args] in the store and on values agree: when the
    list that [_args] refers to exists, the contents of the list that
    the store-level read returns are what the value-level read returns
    for the instance taken as a value. *)
Theorem store_get_args_refines
    (o : Store.Obj) (h h1 : Store.Heap) (r : nat) :
  (∀ l, Store.obj_dict o !! "_args" = Some l →
        is_Some (Store.heap_lists h !! l)) →
  Store._get_args o h = (r, h1) →
  ∃ items, Store.heap_lists h1 !! r = Some items
           ∧ _get_args (Store.instance_of o h) = ret (PyList items).
Proof.
  intros Hvalid. unfold Store._get_args.
  destruct (Store.obj_dict o !! "_args") as [l|] eqn:Ho.
  - intros [= <- <-]. destruct (Hvalid l eq_refl) as [items Hl].
    exists items. split; [done|].
    apply get_args_stored. by eapply instance_of_args.
  - intros [= <- <-]. exists []. split; [apply lookup_insert_eq|].
    apply get_args_default. by apply instance_of_no_args.
Qed.

Lemma store_get_args_refines_witness :
  ∃ items,
    Store.heap_lists (Store.mkHeap {[ 0 := [PyStr "Label"] ]} 1) !! 0
    = Some items
    ∧ _get_args
        (Store.instance_of
           (Store.mkObj PluginEnabledEvent {[ "_args" := 0 ]})
           (Store.mkHeap {[ 0 := [PyStr "Label"] ]} 1))
      = ret (PyList items).
Proof.
  apply (store_get_args_refines
           (Store.mkObj PluginEnabledEvent {[ "_args" := 0 ]})
           (Store.mkHeap {[ 0 := [PyStr "Label"] ]} 1)
           (Store.mkHeap {[ 0 := [PyStr "Label"] ]} 1) 0).
  - simpl. intros l [_ <-]%lookup_singleton_Some.
    rewrite lookup_singleton_eq. eauto.
  - by vm_compute.
Defined.
